(** * Mergington High School activities API

    A shallow embedding of [src/models.py], [src/database.py] and
    [src/app.py]: the two SQLModel tables, the SQLAlchemy session the
    handlers talk to (pending objects are written by [commit] only), the
    seeding routine and the three request handlers. *)

From stdpp Require Import gmap strings list.
From Stdlib Require Import ZArith Lia.

(** ** models.py *)

Module Models.

(** [class Activity(SQLModel, table=True)]; [name] is the primary key. *)
Record Activity := {
  name : string;
  description : string;
  schedule : string;
  max_participants : Z
}.

(** [class Participant(SQLModel, table=True)]; [id] is the primary key and
    is [None] until the row is flushed; [registered_at] is the reading of
    the clock ([datetime.utcnow]) when the object is built. *)
Record Participant := {
  id : option Z;
  email : string;
  activity_name : string;
  registered_at : Z
}.

End Models.
Import Models.

(** ** The store: the two tables of [activities.db], rows in scan order. *)

Record Store := {
  activity_table : list Activity;
  participant_table : list Participant
}.

Definition empty_store : Store :=
  {| activity_table := []; participant_table := [] |}.

(** Declared primary keys. *)
Definition pk_activity (st : Store) : Prop :=
  NoDup (name <$> activity_table st).

Definition pk_participant (st : Store) : Prop :=
  NoDup (id <$> participant_table st).

(** ** The session *)

Inductive Entity :=
| EActivity (a : Activity)
| EParticipant (p : Participant).

(** [new] and [deleted] are the objects handed to [session.add] and
    [session.delete] since the last commit. *)
Record Session := {
  db : Store;
  new : list Entity;
  deleted : list Participant
}.

(** [fastapi.HTTPException(status_code=..., detail=...)]. *)
Record HTTPException := {
  status_code : Z;
  detail : string
}.

(** A computation over a session that returns or raises. *)
Definition Handler (A : Type) : Type :=
  Session → (HTTPException + A) * Session.

Definition raise {A} (e : HTTPException) : Handler A := λ s, (inl e, s).

#[export] Instance Handler_ret : MRet Handler := λ A x s, (inr x, s).

#[export] Instance Handler_bind : MBind Handler := λ A B k m s,
  match m s with
  | (inl e, s') => (inl e, s')
  | (inr x, s') => k x s'
  end.

#[export] Instance Handler_fmap : FMap Handler := λ A B f m,
  x ← m; mret (f x).

(** [for x in l: body(x)] *)
Fixpoint for_each {A} (l : list A) (body : A → Handler unit) : Handler unit :=
  match l with
  | [] => mret ()
  | x :: l' => body x;; for_each l' body
  end.

(** [for x in l: acc = body(acc, x)], the loop carrying a local variable. *)
Fixpoint for_fold {A B} (l : list A) (acc : B) (body : B → A → Handler B)
  : Handler B :=
  match l with
  | [] => mret acc
  | x :: l' => acc' ← body acc x; for_fold l' acc' body
  end.

(** *** Reads

    No handler queries after it has added or deleted an object, so every
    read sees the store as the last commit left it. *)

(** [session.get(Activity, key)] *)
Definition session_get (key : string) : Handler (option Activity) :=
  λ s, (inr (head (filter (λ a, name a = key) (activity_table (db s)))), s).

(** [session.exec(select(Activity)).all()] *)
Definition select_Activity : Handler (list Activity) :=
  λ s, (inr (activity_table (db s)), s).

(** [session.exec(select(Participant).where(P)).all()] *)
Definition select_Participant (P : Participant → Prop)
    `{!∀ p, Decision (P p)} : Handler (list Participant) :=
  λ s, (inr (filter P (participant_table (db s))), s).

(** [.first()] of a result *)
Definition first {A} (rows : list A) : option A := head rows.

(** *** Writes *)

Definition session_add (e : Entity) : Handler unit :=
  λ s, (inr (), {| db := db s; new := new s ++ [e]; deleted := deleted s |}).

Definition session_delete (p : Participant) : Handler unit :=
  λ s, (inr (), {| db := db s; new := new s; deleted := deleted s ++ [p] |}).

(** The integer primary key SQLite gives a row inserted without one: 1 in an
    empty table, otherwise one more than the largest key (keys are far from
    the 64-bit limit, where SQLite would pick another free key). *)
Definition next_id (rows : list Participant) : Z :=
  match omap id rows with
  | [] => 1
  | i :: ids => 1 + foldr Z.max i ids
  end%Z.

(** [INSERT]: the row goes to the end of its table.  Activity rows are
    added by the seeding alone, into an empty table and under distinct
    names, so the insert never meets an existing key. *)
Definition insert_row (st : Store) (e : Entity) : Store :=
  match e with
  | EActivity a =>
      {| activity_table := activity_table st ++ [a];
         participant_table := participant_table st |}
  | EParticipant p =>
      let key := match id p with
                 | Some i => i
                 | None => next_id (participant_table st)
                 end in
      {| activity_table := activity_table st;
         participant_table :=
           participant_table st ++
           [ {| id := Some key; email := email p;
                activity_name := activity_name p;
                registered_at := registered_at p |} ] |}
  end.

(** [DELETE FROM participant WHERE id = ?] *)
Definition delete_row (st : Store) (p : Participant) : Store :=
  {| activity_table := activity_table st;
     participant_table := filter (λ q, id q ≠ id p) (participant_table st) |}.

(** The unit of work of a commit: the inserts, then the deletes. *)
Definition flush (s : Session) : Store :=
  foldl delete_row (foldl insert_row (db s) (new s)) (deleted s).

(** [session.commit()] *)
Definition session_commit : Handler unit :=
  λ s, (inr (), {| db := flush s; new := []; deleted := [] |}).

(** [with Session(engine) as session: ...] (database.py, [get_session]):
    open a session on the store, run the body, close the session.  What was
    not committed is dropped. *)
Definition with_session {A} (body : Handler A) (st : Store)
  : (HTTPException + A) * Store :=
  let '(r, s) := body {| db := st; new := []; deleted := [] |} in (r, db s).

(** ** app.py *)

(** The JSON object a mutating endpoint answers with, [{"message": ...}]. *)
Record MessageResponse := { message : string }.

(** One value of the mapping [get_activities] returns. *)
Module Entry.
Record t := {
  description : string;
  schedule : string;
  max_participants : Z;
  participants : list string
}.
End Entry.

(** *** seed_initial_data *)

Definition initial_activities : list Activity := [
  {| name := "Chess Club";
     description := "Learn strategies and compete in chess tournaments";
     schedule := "Fridays, 3:30 PM - 5:00 PM";
     max_participants := 12 |};
  {| name := "Programming Class";
     description := "Learn programming fundamentals and build software projects";
     schedule := "Tuesdays and Thursdays, 3:30 PM - 4:30 PM";
     max_participants := 20 |};
  {| name := "Gym Class";
     description := "Physical education and sports activities";
     schedule := "Mondays, Wednesdays, Fridays, 2:00 PM - 3:00 PM";
     max_participants := 30 |};
  {| name := "Soccer Team";
     description := "Join the school soccer team and compete in matches";
     schedule := "Tuesdays and Thursdays, 4:00 PM - 5:30 PM";
     max_participants := 22 |};
  {| name := "Basketball Team";
     description := "Practice and play basketball with the school team";
     schedule := "Wednesdays and Fridays, 3:30 PM - 5:00 PM";
     max_participants := 15 |};
  {| name := "Art Club";
     description := "Explore your creativity through painting and drawing";
     schedule := "Thursdays, 3:30 PM - 5:00 PM";
     max_participants := 15 |};
  {| name := "Drama Club";
     description := "Act, direct, and produce plays and performances";
     schedule := "Mondays and Wednesdays, 4:00 PM - 5:30 PM";
     max_participants := 20 |};
  {| name := "Math Club";
     description := "Solve challenging problems and participate in math competitions";
     schedule := "Tuesdays, 3:30 PM - 4:30 PM";
     max_participants := 10 |};
  {| name := "Debate Team";
     description := "Develop public speaking and argumentation skills";
     schedule := "Fridays, 4:00 PM - 5:30 PM";
     max_participants := 12 |}
].

(** The literal [(email, activity_name)] pairs of [initial_participants]. *)
Definition initial_signups : list (string * string) := [
  ("michael@mergington.edu", "Chess Club");
  ("daniel@mergington.edu", "Chess Club");
  ("emma@mergington.edu", "Programming Class");
  ("sophia@mergington.edu", "Programming Class");
  ("john@mergington.edu", "Gym Class");
  ("olivia@mergington.edu", "Gym Class");
  ("liam@mergington.edu", "Soccer Team");
  ("noah@mergington.edu", "Soccer Team");
  ("ava@mergington.edu", "Basketball Team");
  ("mia@mergington.edu", "Basketball Team");
  ("amelia@mergington.edu", "Art Club");
  ("harper@mergington.edu", "Art Club");
  ("ella@mergington.edu", "Drama Club");
  ("scarlett@mergington.edu", "Drama Club");
  ("james@mergington.edu", "Math Club");
  ("benjamin@mergington.edu", "Math Club");
  ("charlotte@mergington.edu", "Debate Team");
  ("henry@mergington.edu", "Debate Team")
].

(** [Participant(email=..., activity_name=...)]: no key yet, stamped with
    the clock reading [now]. *)
Definition new_Participant (email activity_name : string) (now : Z)
  : Participant :=
  {| id := None; email := email; activity_name := activity_name;
     registered_at := now |}.

(** [clock i] is what [datetime.utcnow] reads when the [i]-th object of the
    list is built. *)
Definition initial_participants (clock : nat → Z) : list Participant :=
  imap (λ i '(e, a), new_Participant e a (clock i)) initial_signups.

Definition seed_initial_data (clock : nat → Z) : Handler unit :=
  found ← first <$> select_Activity;
  match found with
  | Some _ => mret ()
  | None =>
      for_each initial_activities (λ activity,
        session_add (EActivity activity));;
      for_each (initial_participants clock) (λ participant,
        session_add (EParticipant participant));;
      session_commit
  end.

(** *** GET /activities *)

Definition get_activities : Handler (gmap string Entry.t) :=
  activities_list ← select_Activity;
  for_fold activities_list ∅ (λ result activity,
    participants ← select_Participant
                     (λ p, activity_name p = name activity);
    mret (<[ name activity :=
             {| Entry.description := description activity;
                Entry.schedule := schedule activity;
                Entry.max_participants := max_participants activity;
                Entry.participants := email <$> participants |} ]> result)).

(** *** POST /activities/{activity_name}/signup *)

Definition signup_for_activity (activity_name email : string) (now : Z)
  : Handler MessageResponse :=
  activity ← session_get activity_name;
  match activity with
  | None => raise {| status_code := 404; detail := "Activity not found" |}
  | Some activity =>
      existing_signup ← first <$> select_Participant
        (λ p, Models.activity_name p = activity_name ∧ Models.email p = email);
      match existing_signup with
      | Some _ =>
          raise {| status_code := 400;
                   detail := "Student is already signed up" |}
      | None =>
          participants_count ← select_Participant
            (λ p, Models.activity_name p = activity_name);
          if decide (Z.of_nat (length participants_count)
                     >= max_participants activity)%Z
          then raise {| status_code := 400; detail := "Activity is full" |}
          else
            session_add
              (EParticipant (new_Participant email activity_name now));;
            session_commit;;
            mret {| message :=
                      "Signed up " +:+ email +:+ " for " +:+ activity_name |}
      end
  end.

(** *** DELETE /activities/{activity_name}/unregister *)

Definition unregister_from_activity (activity_name email : string)
  : Handler MessageResponse :=
  activity ← session_get activity_name;
  match activity with
  | None => raise {| status_code := 404; detail := "Activity not found" |}
  | Some _ =>
      participant ← first <$> select_Participant
        (λ p, Models.activity_name p = activity_name ∧ Models.email p = email);
      match participant with
      | None =>
          raise {| status_code := 400;
                   detail := "Student is not signed up for this activity" |}
      | Some participant =>
          session_delete participant;;
          session_commit;;
          mret {| message :=
                    "Unregistered " +:+ email +:+ " from " +:+ activity_name |}
      end
  end.

(** *** Startup and the request loop *)

(** [on_startup]: [init_db] creates the two tables when they are missing and
    touches no row; then the seeding runs in a session of its own. *)
Definition on_startup (clock : nat → Z) (st : Store) : Store :=
  (with_session (seed_initial_data clock) st).2.

Inductive Request :=
| Listing
| Signup (activity_name email : string) (now : Z)
| Unregister (activity_name email : string).

(** One request served on its own session; the store it leaves behind. *)
Definition serve (st : Store) (r : Request) : Store :=
  match r with
  | Listing => (with_session get_activities st).2
  | Signup a e now => (with_session (signup_for_activity a e now) st).2
  | Unregister a e => (with_session (unregister_from_activity a e) st).2
  end.

Definition serve_all (st : Store) (rs : list Request) : Store :=
  foldl serve st rs.

(** ** Vocabulary of the specification *)

(** The Activity row a primary-key lookup of [a] yields. *)
Definition activity_named (st : Store) (a : string) : option Activity :=
  head (filter (λ act, name act = a) (activity_table st)).

(** The Participant rows of activity [a]. *)
Definition enrolled (st : Store) (a : string) : list Participant :=
  filter (λ p, activity_name p = a) (participant_table st).

(** The Participant rows of the pair [(a, e)]. *)
Definition signups (st : Store) (a e : string) : list Participant :=
  filter (λ p, activity_name p = a ∧ email p = e) (participant_table st).

Definition registered (st : Store) (a e : string) : Prop :=
  ∃ p, p ∈ participant_table st ∧ activity_name p = a ∧ email p = e.

Definition capacity_respected (st : Store) : Prop :=
  ∀ act, act ∈ activity_table st →
    (Z.of_nat (length (enrolled st (name act))) ≤ max_participants act)%Z.

Definition unique_signups (st : Store) : Prop :=
  ∀ a e, length (signups st a e) ≤ 1.

Definition not_found : HTTPException :=
  {| status_code := 404; detail := "Activity not found" |}.
Definition already_signed_up : HTTPException :=
  {| status_code := 400; detail := "Student is already signed up" |}.
Definition activity_full : HTTPException :=
  {| status_code := 400; detail := "Activity is full" |}.
Definition not_signed_up : HTTPException :=
  {| status_code := 400;
     detail := "Student is not signed up for this activity" |}.

(** The row a successful signup stores. *)
Definition signup_row (st : Store) (a e : string) (now : Z) : Participant :=
  {| id := Some (next_id (participant_table st)); email := e;
     activity_name := a; registered_at := now |}.

Definition with_participants (st : Store) (rows : list Participant) : Store :=
  {| activity_table := activity_table st; participant_table := rows |}.

(** The mapping entry [get_activities] builds for one Activity row. *)
Definition entry_of (st : Store) (act : Activity) : Entry.t :=
  {| Entry.description := description act;
     Entry.schedule := schedule act;
     Entry.max_participants := max_participants act;
     Entry.participants := email <$> enrolled st (name act) |}.

(** ** Auxiliary definitions *)

Ltac run_handler :=
  cbv [with_session mbind Handler_bind mret Handler_ret fmap Handler_fmap
       raise session_get select_Activity select_Participant session_add
       session_delete session_commit first] in *; cbn [db new deleted] in *.

Definition signup_message (a e : string) : MessageResponse :=
  {| message := "Signed up " +:+ e +:+ " for " +:+ a |}.

Definition unregister_message (a e : string) : MessageResponse :=
  {| message := "Unregistered " +:+ e +:+ " from " +:+ a |}.

(** The mapping the listing loop has built after the rows [acts]. *)
Definition listing_from (st : Store) (acts : list Activity)
    (result : gmap string Entry.t) : gmap string Entry.t :=
  foldl (λ m act, <[name act := entry_of st act]> m) result acts.

Definition listing (st : Store) : gmap string Entry.t :=
  listing_from st (activity_table st) ∅.

(** The objects the seeding hands to [session.add], in order. *)
Definition seed_entities (clock : nat → Z) : list Entity :=
  (EActivity <$> initial_activities) ++
  (EParticipant <$> initial_participants clock).

(** The store after the first start on an empty database. *)
Definition seeded (clock : nat → Z) : Store := on_startup clock empty_store.

Inductive serve_effect (st : Store) : Request → Store → Prop :=
| effect_none r :
    serve_effect st r st
| effect_insert a e now act :
    activity_named st a = Some act →
    ¬ registered st a e →
    (Z.of_nat (length (enrolled st a)) < max_participants act)%Z →
    serve_effect st (Signup a e now)
      (with_participants st (participant_table st ++ [signup_row st a e now]))
| effect_delete a e p :
    head (signups st a e) = Some p →
    serve_effect st (Unregister a e)
      (with_participants st
         (filter (λ q, id q ≠ id p) (participant_table st))).

(** Settle a decidable statement about literal data by running its decision
    procedure. *)
Ltac decide_by_running :=
  apply (bool_decide_unpack _); vm_compute; exact I.

#[export] Instance registered_dec st a e : Decision (registered st a e).
Proof.
  refine (cast_if (decide (Exists (λ p, activity_name p = a ∧ email p = e)
                                  (participant_table st))));
    abstract (unfold registered; rewrite Exists_exists in *; naive_solver).
Defined.

(** How often [e] occurs in a list of emails. *)
Definition occurrences (e : string) (emails : list string) : nat :=
  length (filter (λ x, x = e) emails).

(** The unregister contract as the specification words it, for one store
    and one request: the two failures, and on success the matching row is
    the one row removed and a listing taken afterwards no longer shows the
    email under the activity. *)
Definition unregister_contract (st : Store) (a e : string) : Prop :=
  ((∀ act, act ∈ activity_table st → name act ≠ a) →
   with_session (unregister_from_activity a e) st =
   (inl {| status_code := 404; detail := "Activity not found" |}, st)) ∧
  (is_Some (activity_named st a) →
   ¬ registered st a e →
   with_session (unregister_from_activity a e) st =
   (inl {| status_code := 400;
           detail := "Student is not signed up for this activity" |}, st)) ∧
  (is_Some (activity_named st a) →
   registered st a e →
   ∃ l1 p l2 m entry,
     participant_table st = l1 ++ p :: l2 ∧
     activity_name p = a ∧ email p = e ∧
     with_session (unregister_from_activity a e) st =
     (inr {| message := "Unregistered " +:+ e +:+ " from " +:+ a |},
      with_participants st (l1 ++ l2)) ∧
     with_session get_activities (with_participants st (l1 ++ l2)) =
     (inr m, with_participants st (l1 ++ l2)) ∧
     m !! a = Some entry ∧
     e ∉ Entry.participants entry).

(** The first activity of the catalog. *)
Definition chess_club : Activity :=
  {| name := "Chess Club";
     description := "Learn strategies and compete in chess tournaments";
     schedule := "Fridays, 3:30 PM - 5:00 PM";
     max_participants := 12 |}.

(** A database in which one pair was stored twice, under distinct keys. *)
Definition twice_signed_store : Store :=
  {| activity_table := [chess_club];
     participant_table :=
       [ {| id := Some 1%Z; email := "michael@mergington.edu";
            activity_name := "Chess Club"; registered_at := 0 |};
         {| id := Some 2%Z; email := "michael@mergington.edu";
            activity_name := "Chess Club"; registered_at := 5 |} ] |}.

(** An activity without a seat, and a store that offers only it. *)
Definition no_seat_club : Activity :=
  {| name := "Chess Club";
     description := "Learn strategies and compete in chess tournaments";
     schedule := "Fridays, 3:30 PM - 5:00 PM";
     max_participants := 0 |}.

Definition no_seat_store : Store :=
  {| activity_table := [no_seat_club]; participant_table := [] |}.

(** The declared foreign key [participant.activity_name -> activity.name]:
    every Participant row names an Activity row.  SQLite does not enforce it
    on this engine; the handlers keep it. *)
Definition fk_participant (st : Store) : Prop :=
  ∀ p, p ∈ participant_table st →
       ∃ act, act ∈ activity_table st ∧ name act = activity_name p.


(** The activity a request writes to, if it writes at all. *)
Definition request_activity (r : Request) : option string :=
  match r with
  | Listing => None
  | Signup a _ _ => Some a
  | Unregister a _ => Some a
  end.

(** ** Generic facts *)

Section filter_head.
Context {A : Type} (P : A → Prop) `{!∀ x, Decision (P x)}.

Lemma head_filter_None (l : list A) :
  head (filter P l) = None ↔ ∀ x, x ∈ l → ¬ P x.
Proof.
  rewrite head_None. split.
  - intros Hnil x Hx HP. by eapply filter_nil_not_elem_of.
  - intros Hno. induction l as [|y l IH]; [done|].
    rewrite filter_cons_False; [|apply Hno; left].
    apply IH. intros x Hx. apply Hno. by right.
Qed.

Lemma head_filter_Some (l : list A) (x : A) :
  head (filter P l) = Some x → x ∈ l ∧ P x.
Proof.
  intros Hh. apply head_Some_elem_of, list_elem_of_filter in Hh. tauto.
Qed.

(** The first row a filter keeps splits the table around it. *)
Lemma head_filter_split (l : list A) (x : A) :
  head (filter P l) = Some x →
  ∃ l1 l2, l = l1 ++ x :: l2 ∧ P x ∧ ∀ y, y ∈ l1 → ¬ P y.
Proof.
  induction l as [|y l IH]; [done|].
  rewrite filter_cons. destruct (decide (P y)) as [HP|HP].
  - intros [= ->]. exists [], l. split_and!; [done|done|].
    intros z Hz. by apply elem_of_nil in Hz.
  - intros (l1 & l2 & -> & HPx & Hl1)%IH.
    exists (y :: l1), l2. split_and!; [done|done|].
    intros z [->|Hz]%elem_of_cons; auto.
Qed.
End filter_head.

Lemma registered_signups st a e :
  registered st a e ↔ signups st a e ≠ [].
Proof.
  unfold registered, signups. split.
  - intros (p & Hp & Ha & He) Hnil.
    by eapply (filter_nil_not_elem_of _ _ p Hnil).
  - intros Hne. destruct (filter _ _) as [|p l] eqn:Hf; [done|].
    assert (p ∈ filter (λ p, activity_name p = a ∧ email p = e)
                  (participant_table st)) as Hin by (rewrite Hf; left).
    apply list_elem_of_filter in Hin as [[Ha He] Hin]. by exists p.
Qed.

Lemma not_registered_head st a e :
  ¬ registered st a e → head (signups st a e) = None.
Proof.
  rewrite registered_signups. intros Hn. apply head_None.
  by destruct (decide (signups st a e = [])).
Qed.

Lemma registered_head st a e :
  registered st a e → ∃ p, head (signups st a e) = Some p.
Proof.
  rewrite registered_signups. destruct (signups st a e); [done|eauto].
Qed.

(** Under the primary key, the lookup finds the one row with that name. *)
Lemma activity_named_pk st act :
  pk_activity st → act ∈ activity_table st →
  activity_named st (name act) = Some act.
Proof.
  unfold pk_activity, activity_named. induction (activity_table st) as [|b l IH].
  - intros _ Hin. by apply elem_of_nil in Hin.
  - rewrite fmap_cons, NoDup_cons. intros [Hb Hnd] Hin.
    rewrite filter_cons. apply elem_of_cons in Hin as [->|Hin].
    + by rewrite decide_True.
    + rewrite decide_False; [by apply IH|].
      intros Heq. apply Hb. rewrite Heq. by apply list_elem_of_fmap_2.
Qed.

Lemma activity_named_elem st a act :
  activity_named st a = Some act → act ∈ activity_table st ∧ name act = a.
Proof.
  intros Hh. by apply (head_filter_Some (λ act, name act = a)) in Hh.
Qed.

(** ** What each handler computes on a fresh session *)

Lemma signup_runs st a e now :
  with_session (signup_for_activity a e now) st =
  match activity_named st a with
  | None => (inl not_found, st)
  | Some act =>
      match head (signups st a e) with
      | Some _ => (inl already_signed_up, st)
      | None =>
          if decide (Z.of_nat (length (enrolled st a))
                     >= max_participants act)%Z
          then (inl activity_full, st)
          else (inr (signup_message a e),
                with_participants st
                  (participant_table st ++ [signup_row st a e now]))
      end
  end.
Proof.
  unfold signup_for_activity, activity_named, signups, enrolled.
  run_handler.
  destruct (head (filter (λ act, name act = a) _)) as [act|]; [|done].
  destruct (head (filter (λ p, activity_name p = a ∧ email p = e) _));
    [done|].
  by destruct (decide _).
Qed.

Lemma unregister_runs st a e :
  with_session (unregister_from_activity a e) st =
  match activity_named st a with
  | None => (inl not_found, st)
  | Some _ =>
      match head (signups st a e) with
      | None => (inl not_signed_up, st)
      | Some p =>
          (inr (unregister_message a e),
           with_participants st
             (filter (λ q, id q ≠ id p) (participant_table st)))
      end
  end.
Proof.
  unfold unregister_from_activity, activity_named, signups.
  run_handler.
  destruct (head (filter (λ act, name act = a) _)) as [act|]; [|done].
  by destruct (head (filter (λ p, activity_name p = a ∧ email p = e) _)).
Qed.

Lemma get_activities_session (s : Session) :
  get_activities s = (inr (listing (db s)), s).
Proof.
  unfold get_activities, listing. run_handler.
  generalize (∅ : gmap string Entry.t).
  induction (activity_table (db s)) as [|act acts IH]; intros result;
    [done|].
  cbn [for_fold listing_from foldl]. run_handler. apply IH.
Qed.

Lemma get_activities_runs st :
  with_session get_activities st = (inr (listing st), st).
Proof. unfold with_session. by rewrite get_activities_session. Qed.

(** The scenario of the specification: the seeded Chess Club has two
    participants and twelve seats; a third email signs up and is listed. *)
Example chess_club_scenario :
  listing (seeded Z.of_nat) !! "Chess Club" =
  Some {| Entry.description :=
            "Learn strategies and compete in chess tournaments";
          Entry.schedule := "Fridays, 3:30 PM - 5:00 PM";
          Entry.max_participants := 12;
          Entry.participants :=
            ["michael@mergington.edu"; "daniel@mergington.edu"] |} ∧
  Entry.participants <$>
    listing (serve (seeded Z.of_nat)
                   (Signup "Chess Club" "zoe@mergington.edu" 99))
    !! "Chess Club" =
  Some ["michael@mergington.edu"; "daniel@mergington.edu";
        "zoe@mergington.edu"].
Proof. split; vm_compute; reflexivity. Qed.

(** The entry of a name comes from the last row carrying that name. *)
Lemma listing_from_lookup st acts result a :
  listing_from st acts result !! a =
  match last (filter (λ act, name act = a) acts) with
  | Some act => Some (entry_of st act)
  | None => result !! a
  end.
Proof.
  unfold listing_from. induction acts as [|act acts IH] using rev_ind; [done|].
  rewrite foldl_app, filter_app, filter_cons, filter_nil. cbn [foldl].
  destruct (decide (name act = a)) as [<-|Hne].
  - by rewrite last_snoc, lookup_insert_eq.
  - by rewrite app_nil_r, lookup_insert_ne.
Qed.

Lemma listing_lookup st a :
  listing st !! a = entry_of st <$> last (filter (λ act, name act = a)
                                            (activity_table st)).
Proof.
  unfold listing. rewrite listing_from_lookup.
  by destruct (last _).
Qed.

(** A name some Activity row carries has an entry, built from a row of that
    name. *)
Lemma listing_lookup_named st a act0 :
  activity_named st a = Some act0 →
  ∃ act, act ∈ activity_table st ∧ name act = a ∧
         listing st !! a = Some (entry_of st act).
Proof.
  intros Hh. rewrite listing_lookup.
  destruct (last (filter (λ act, name act = a) (activity_table st)))
    as [act|] eqn:Hl.
  - exists act. by apply last_Some_elem_of, list_elem_of_filter in Hl as [? ?].
  - apply last_None in Hl. unfold activity_named in Hh. by rewrite Hl in Hh.
Qed.

(** *** Seeding *)

Lemma for_each_add {A} (mk : A → Entity) (l : list A) (s : Session) :
  for_each l (λ x, session_add (mk x)) s =
  (inr (), {| db := db s; new := new s ++ (mk <$> l); deleted := deleted s |}).
Proof.
  revert s. induction l as [|x l IH]; intros s.
  - cbn. rewrite app_nil_r. by destruct s.
  - cbn [for_each]. run_handler. rewrite IH. cbn [db new deleted].
    by rewrite <- app_assoc.
Qed.

Lemma seed_runs clock st :
  with_session (seed_initial_data clock) st =
  (inr (), match activity_table st with
           | [] => foldl insert_row st (seed_entities clock)
           | _ :: _ => st
           end).
Proof.
  unfold seed_initial_data, with_session.
  cbv [mbind Handler_bind fmap Handler_fmap mret Handler_ret select_Activity
       first]. cbn [db].
  destruct (activity_table st) as [|act acts]; [|done]. cbn [head].
  rewrite !for_each_add. by cbn.
Qed.

Lemma on_startup_populated clock st :
  activity_table st ≠ [] → on_startup clock st = st.
Proof.
  unfold on_startup. rewrite seed_runs.
  by destruct (activity_table st).
Qed.

Lemma insert_row_activities st es :
  activity_table (foldl insert_row st es) =
  activity_table st ++ omap (λ e, match e with
                                  | EActivity a => Some a
                                  | EParticipant _ => None
                                  end) es.
Proof.
  revert st. induction es as [|e es IH]; intros st; cbn [foldl omap].
  - by rewrite app_nil_r.
  - rewrite IH. destruct e; cbn; [by rewrite <- app_assoc|done].
Qed.

Lemma on_startup_fresh clock st :
  activity_table st = [] →
  on_startup clock st = foldl insert_row st (seed_entities clock) ∧
  activity_table (on_startup clock st) = initial_activities.
Proof.
  intros Hnil. unfold on_startup. rewrite seed_runs, Hnil. cbn [snd].
  split; [done|]. by rewrite insert_row_activities, Hnil.
Qed.

Lemma seeded_participants clock :
  participant_table (seeded clock) =
  imap (λ i '(e, a), {| id := Some (Z.of_nat (S i)); email := e;
                         activity_name := a; registered_at := clock i |})
       initial_signups.
Proof. reflexivity. Qed.

Lemma seeded_activities clock :
  activity_table (seeded clock) = initial_activities.
Proof. reflexivity. Qed.

(** ** The three ways a request leaves the store *)

Lemma serve_cases st r : serve_effect st r (serve st r).
Proof.
  destruct r as [|a e now|a e]; cbn [serve].
  - rewrite get_activities_runs. constructor.
  - rewrite signup_runs.
    destruct (activity_named st a) as [act|] eqn:Hact; [|constructor].
    destruct (head (signups st a e)) as [p|] eqn:Hp; [constructor|].
    destruct (decide _) as [Hfull|Hroom]; [constructor|]. cbn [snd].
    apply effect_insert with act.
    + done.
    + rewrite registered_signups. apply head_None in Hp. rewrite Hp.
      by intros Hne.
    + lia.
  - rewrite unregister_runs.
    destruct (activity_named st a) as [act|]; [|constructor].
    destruct (head (signups st a e)) as [p|] eqn:Hp; [|constructor].
    by constructor.
Qed.

Lemma serve_activity_table st r :
  activity_table (serve st r) = activity_table st.
Proof. by destruct (serve_cases st r). Qed.

Lemma serve_all_activity_table st rs :
  activity_table (serve_all st rs) = activity_table st.
Proof.
  revert st. induction rs as [|r rs IH]; intros st; [done|].
  cbn. unfold serve_all in IH. by rewrite IH, serve_activity_table.
Qed.

Section filter_twice.
Context {A : Type} (P Q : A → Prop)
        `{!∀ x, Decision (P x), !∀ x, Decision (Q x)}.

Lemma length_filter_filter (l : list A) :
  length (filter P (filter Q l)) ≤ length (filter P l).
Proof.
  induction l as [|x l IH]; [done|].
  rewrite !filter_cons.
  destruct (decide (Q x)), (decide (P x)); rewrite ?filter_cons;
    try case_decide; cbn; try done; lia.
Qed.
End filter_twice.

(** *** Uniqueness of signups *)

Lemma unique_signups_serve st r :
  unique_signups st → unique_signups (serve st r).
Proof.
  intros Huniq. destruct (serve_cases st r) as [r|a e now act _ Hnew _|a e p _];
    [done| |]; intros a' e'; unfold signups; cbn [participant_table
    with_participants].
  - rewrite filter_app, length_app, filter_cons, filter_nil.
    cbn [activity_name email signup_row].
    destruct (decide (a = a' ∧ e = e')) as [[<- <-]|Hother].
    + apply not_registered_head, head_None in Hnew.
      unfold signups in Hnew. by rewrite Hnew.
    + specialize (Huniq a' e'). unfold signups in Huniq. cbn. lia.
  - etrans; [apply length_filter_filter|apply Huniq].
Qed.

Lemma unique_signups_serve_all st rs :
  unique_signups st → unique_signups (serve_all st rs).
Proof.
  revert st. induction rs as [|r rs IH]; intros st Hst; [done|].
  apply IH, unique_signups_serve, Hst.
Qed.

(** *** Capacity *)

Lemma capacity_respected_serve st r :
  pk_activity st → capacity_respected st → capacity_respected (serve st r).
Proof.
  intros Hpk Hcap.
  destruct (serve_cases st r) as [r|a e now act Hact _ Hroom|a e p _];
    [done| |]; intros act' Hin; unfold enrolled;
    cbn [participant_table activity_table with_participants] in *.
  - rewrite filter_app, length_app, filter_cons, filter_nil.
    cbn [activity_name signup_row].
    specialize (Hcap act' Hin). unfold enrolled in Hcap.
    destruct (decide (a = name act')) as [->|Hother]; cbn; [|lia].
    rewrite (activity_named_pk _ _ Hpk Hin) in Hact.
    injection Hact as <-. unfold enrolled in Hroom. lia.
  - specialize (Hcap act' Hin). unfold enrolled in Hcap.
    pose proof (length_filter_filter
                  (λ p0, activity_name p0 = name act') (λ q, id q ≠ id p)
                  (participant_table st)). lia.
Qed.

Lemma capacity_respected_serve_all st rs :
  pk_activity st → capacity_respected st →
  capacity_respected (serve_all st rs).
Proof.
  revert st. induction rs as [|r rs IH]; intros st Hpk Hst; [done|].
  apply IH.
  - unfold pk_activity. by rewrite serve_activity_table.
  - by apply capacity_respected_serve.
Qed.

(** *** Primary keys *)

Lemma foldr_max_ge (i : Z) (ids : list Z) (j : Z) :
  j ∈ i :: ids → (j ≤ foldr Z.max i ids)%Z.
Proof.
  induction ids as [|k ids IH]; cbn [foldr].
  - intros ->%list_elem_of_singleton. lia.
  - rewrite elem_of_cons, elem_of_cons.
    intros [->|[->|Hj]]; [| lia |].
    + etrans; [apply IH; left|lia].
    + etrans; [apply IH; by right|lia].
Qed.

Lemma next_id_fresh (rows : list Participant) :
  Some (next_id rows) ∉ id <$> rows.
Proof.
  intros (p & Hid & Hp)%list_elem_of_fmap.
  assert (next_id rows ∈ omap id rows) as Hin.
  { apply list_elem_of_omap. by exists p. }
  unfold next_id in *. destruct (omap id rows) as [|i ids].
  - by apply elem_of_nil in Hin.
  - apply foldr_max_ge in Hin. lia.
Qed.




(** Deleting by key removes the one row that carries the key. *)
Lemma delete_by_key (l1 l2 : list Participant) (p : Participant) :
  NoDup (id <$> l1 ++ p :: l2) →
  filter (λ q, id q ≠ id p) (l1 ++ p :: l2) = l1 ++ l2.
Proof.
  rewrite fmap_app, fmap_cons, NoDup_app, NoDup_cons.
  intros (_ & Hl1 & Hp & _).
  rewrite filter_app, filter_cons_False by (by intros Hne).
  f_equal.
  - clear Hp. induction l1 as [|q l1 IH]; [done|].
    rewrite filter_cons_True.
    + f_equal. apply IH. intros i Hi. apply Hl1. by right.
    + intros Heq. apply (Hl1 (id q)); [left|rewrite Heq; left].
  - clear Hl1. induction l2 as [|q l2 IH]; [done|].
    rewrite fmap_cons, not_elem_of_cons in Hp. destruct Hp as [Hne Hp].
    rewrite filter_cons_True by done. f_equal. by apply IH.
Qed.

(** *** The seeded store *)

Lemma unique_signups_NoDup st :
  NoDup ((λ p, (activity_name p, email p)) <$> participant_table st) →
  unique_signups st.
Proof.
  unfold unique_signups, signups.
  induction (participant_table st) as [|p rows IH]; intros Hnd a e;
    [cbn; lia|].
  rewrite fmap_cons, NoDup_cons in Hnd. destruct Hnd as [Hp Hnd].
  rewrite filter_cons. destruct (decide _) as [[<- <-]|_]; [|by apply IH].
  assert (filter (λ q, activity_name q = activity_name p ∧ email q = email p)
                 rows = []) as ->; [|done].
  destruct (filter _ rows) as [|q l] eqn:Hf; [done|]. exfalso. apply Hp.
  assert (q ∈ filter (λ q, activity_name q = activity_name p
                           ∧ email q = email p) rows) as Hq
    by (rewrite Hf; left).
  apply list_elem_of_filter in Hq as [[Ha He] Hq].
  rewrite <- Ha, <- He.
  by apply (list_elem_of_fmap_2 (λ p, (activity_name p, email p))).
Qed.

Lemma pk_activity_seeded clock : pk_activity (seeded clock).
Proof.
  unfold pk_activity. rewrite seeded_activities.
  decide_by_running.
Qed.


Lemma unique_signups_seeded clock : unique_signups (seeded clock).
Proof.
  apply unique_signups_NoDup. rewrite seeded_participants.
  decide_by_running.
Qed.

Lemma capacity_respected_seeded clock : capacity_respected (seeded clock).
Proof.
  unfold capacity_respected. rewrite seeded_activities.
  apply Forall_forall. unfold enrolled. rewrite seeded_participants.
  decide_by_running.
Qed.

Lemma activity_named_None st a :
  activity_named st a = None ↔ ∀ act, act ∈ activity_table st → name act ≠ a.
Proof. apply head_filter_None. Qed.

Lemma occurrences_enrolled st a e :
  occurrences e (email <$> enrolled st a) = length (signups st a e).
Proof.
  unfold occurrences, enrolled, signups.
  induction (participant_table st) as [|p rows IH]; [done|].
  rewrite !filter_cons.
  destruct (decide (activity_name p = a)) as [Ha|Ha].
  - rewrite fmap_cons, filter_cons.
    destruct (decide (email p = e)) as [He|He].
    + rewrite decide_True by done. cbn. by rewrite IH.
    + rewrite decide_False by tauto. done.
  - rewrite decide_False by tauto. done.
Qed.

(** C1. Signup answers 404 "Activity not found" when no Activity row has the
    name; otherwise 400 "Student is already signed up" when a row for the
    pair exists; otherwise 400 "Activity is full" when the activity's rows
    number at least its [max_participants]; otherwise it appends exactly one
    row for the pair and answers "Signed up {email} for {activity_name}".
    The conditions are nested in this order, so an earlier failure decides. *)
Theorem signup_outcomes (st : Store) (a e : string) (now : Z) :
  ((∀ act, act ∈ activity_table st → name act ≠ a) →
   with_session (signup_for_activity a e now) st =
   (inl {| status_code := 404; detail := "Activity not found" |}, st)) ∧
  (∀ act, activity_named st a = Some act →
   registered st a e →
   with_session (signup_for_activity a e now) st =
   (inl {| status_code := 400; detail := "Student is already signed up" |},
    st)) ∧
  (∀ act, activity_named st a = Some act →
   ¬ registered st a e →
   (Z.of_nat (length (enrolled st a)) >= max_participants act)%Z →
   with_session (signup_for_activity a e now) st =
   (inl {| status_code := 400; detail := "Activity is full" |}, st)) ∧
  (∀ act, activity_named st a = Some act →
   ¬ registered st a e →
   (Z.of_nat (length (enrolled st a)) < max_participants act)%Z →
   with_session (signup_for_activity a e now) st =
   (inr {| message := "Signed up " +:+ e +:+ " for " +:+ a |},
    {| activity_table := activity_table st;
       participant_table :=
         participant_table st ++
         [ {| id := Some (next_id (participant_table st)); email := e;
              activity_name := a; registered_at := now |} ] |})).
Proof.
  rewrite signup_runs. split_and!.
  - intros Hno. apply activity_named_None in Hno. by rewrite Hno.
  - intros act -> [p ->]%registered_head. done.
  - intros act -> ->%not_registered_head Hfull. by rewrite decide_True.
  - intros act -> ->%not_registered_head Hroom.
    rewrite decide_False by lia. done.
Qed.

Lemma signup_outcomes_witness :
  activity_named (seeded Z.of_nat) "Chess Club" = Some chess_club ∧
  ¬ registered (seeded Z.of_nat) "Chess Club" "zoe@mergington.edu" ∧
  (Z.of_nat (length (enrolled (seeded Z.of_nat) "Chess Club"))
   < max_participants chess_club)%Z ∧
  with_session (signup_for_activity "Chess Club" "zoe@mergington.edu" 99)
               (seeded Z.of_nat) =
  (inr {| message := "Signed up zoe@mergington.edu for Chess Club" |},
   {| activity_table := initial_activities;
      participant_table :=
        participant_table (seeded Z.of_nat) ++
        [ {| id := Some 19%Z; email := "zoe@mergington.edu";
             activity_name := "Chess Club"; registered_at := 99 |} ] |}).
Proof.
  assert (activity_named (seeded Z.of_nat) "Chess Club" = Some chess_club)
    as Hact by reflexivity.
  assert (¬ registered (seeded Z.of_nat) "Chess Club" "zoe@mergington.edu")
    as Hnew by (apply (bool_decide_unpack _); vm_compute; exact I).
  assert (Z.of_nat (length (enrolled (seeded Z.of_nat) "Chess Club"))
          < max_participants chess_club)%Z as Hroom
    by (vm_compute; reflexivity).
  split_and!; [exact Hact|exact Hnew|exact Hroom|].
  exact (proj2 (proj2 (proj2
           (signup_outcomes (seeded Z.of_nat) "Chess Club"
                            "zoe@mergington.edu" 99)))
           chess_club Hact Hnew Hroom).
Defined.

Lemma twice_signed_store_keys :
  pk_activity twice_signed_store ∧ pk_participant twice_signed_store.
Proof. split; decide_by_running. Qed.

(** C2, as worded, fails on a store holding the pair twice: the first
    matching row goes, the second keeps the email in the listing. *)
Lemma unregister_contract_twice_signed :
  ¬ unregister_contract twice_signed_store "Chess Club"
      "michael@mergington.edu".
Proof.
  intros (_ & _ & Hdel).
  destruct Hdel as (l1 & p & l2 & m & entry & _ & _ & _ & Hrun & Hlist &
                    Hentry & Hgone).
  - by eexists.
  - apply (bool_decide_unpack _). vm_compute. exact I.
  - rewrite unregister_runs in Hrun. cbn in Hrun.
    injection Hrun as Hrows.
    rewrite get_activities_runs in Hlist. injection Hlist as <-.
    unfold with_participants in Hentry. rewrite <- Hrows in Hentry.
    vm_compute in Hentry. injection Hentry as <-.
    apply Hgone. cbn. left.
Qed.

(** C2 (amended). When at most one row carries the pair -- as in every store
    with unique signups -- and row keys are distinct, unregister answers 404
    for an unknown activity, 400 for a pair that is not stored, and
    otherwise removes exactly the matching row, answers "Unregistered
    {email} from {activity_name}", and a listing taken afterwards does not
    show the email under the activity. *)
Theorem unregister_outcomes (st : Store) (a e : string) :
  pk_participant st →
  length (signups st a e) ≤ 1 →
  unregister_contract st a e.
Proof.
  intros Hpk Hone. unfold unregister_contract.
  rewrite unregister_runs. split_and!.
  - intros Hno. apply activity_named_None in Hno. by rewrite Hno.
  - intros [act ->] ->%not_registered_head. done.
  - intros [act Hact] [p Hp]%registered_head. rewrite Hact, Hp.
    pose proof Hp as (l1 & l2 & Hrows & [Ha He] & Hfirst)%head_filter_split.
    unfold pk_participant in Hpk. rewrite Hrows in Hpk.
    destruct (listing_lookup_named (with_participants st (l1 ++ l2)) a act)
      as (act' & _ & Hname & Hentry); [done|].
    exists l1, p, l2, (listing (with_participants st (l1 ++ l2))),
           (entry_of (with_participants st (l1 ++ l2)) act').
    split_and!; try done.
    + by rewrite Hrows, delete_by_key.
    + apply get_activities_runs.
    + cbn [entry_of Entry.participants]. rewrite Hname.
      intros Hin. apply (list_elem_of_fmap_1 email) in Hin as (q & He' & Hq).
      apply list_elem_of_filter in Hq as [Ha' Hq]. cbn in Hq.
      unfold signups in Hone. rewrite Hrows in Hone.
      rewrite filter_app, filter_cons_True, length_app in Hone by done.
      cbn in Hone.
      assert (q ∈ filter (λ p, activity_name p = a ∧ email p = e) l1
                  ++ filter (λ p, activity_name p = a ∧ email p = e) l2)
        as Hq'.
      { rewrite <- filter_app. apply list_elem_of_filter. by split. }
      destruct (filter _ l1), (filter _ l2); cbn in Hone; try lia.
      by apply elem_of_nil in Hq'.
Qed.

Lemma unregister_outcomes_witness :
  pk_participant (seeded Z.of_nat) ∧
  length (signups (seeded Z.of_nat) "Chess Club" "daniel@mergington.edu") ≤ 1 ∧
  unregister_contract (seeded Z.of_nat) "Chess Club" "daniel@mergington.edu".
Proof.
  assert (pk_participant (seeded Z.of_nat)) as Hpk
    by (apply (bool_decide_unpack _); vm_compute; exact I).
  assert (length (signups (seeded Z.of_nat) "Chess Club"
                          "daniel@mergington.edu") ≤ 1) as Hone
    by (vm_compute; lia).
  split_and!; [exact Hpk|exact Hone|].
  exact (unregister_outcomes (seeded Z.of_nat) "Chess Club"
           "daniel@mergington.edu" Hpk Hone).
Defined.

(** C3. Capacity invariant: no activity of the seeded store has more rows
    than its [max_participants]; a request served on a store that respects
    the capacities (activity names being keys) leaves a store that respects
    them; hence every store reached from the seeded one respects them. *)
Theorem capacity_invariant (clock : nat → Z) :
  capacity_respected (seeded clock) ∧
  (∀ st r, pk_activity st → capacity_respected st →
           capacity_respected (serve st r)) ∧
  (∀ rs, capacity_respected (serve_all (seeded clock) rs)).
Proof.
  split_and!.
  - apply capacity_respected_seeded.
  - apply capacity_respected_serve.
  - intros rs. apply capacity_respected_serve_all.
    + apply pk_activity_seeded.
    + apply capacity_respected_seeded.
Qed.

Lemma capacity_invariant_witness :
  pk_activity (seeded Z.of_nat) ∧
  capacity_respected (seeded Z.of_nat) ∧
  capacity_respected
    (serve (seeded Z.of_nat) (Signup "Math Club" "zoe@mergington.edu" 99)).
Proof.
  split_and!.
  - apply (bool_decide_unpack _). vm_compute. exact I.
  - apply (proj1 (capacity_invariant Z.of_nat)).
  - apply (proj1 (proj2 (capacity_invariant Z.of_nat))).
    + apply (bool_decide_unpack _). vm_compute. exact I.
    + apply (proj1 (capacity_invariant Z.of_nat)).
Defined.

(** C4. Uniqueness invariant: the seeded pairs are pairwise distinct, so the
    seeded store holds each pair at most once; every request served on a
    store with unique signups leaves a store with unique signups; hence so
    is every store reached from the seeded one. *)
Theorem uniqueness_invariant (clock : nat → Z) :
  NoDup initial_signups ∧
  unique_signups (seeded clock) ∧
  (∀ st r, unique_signups st → unique_signups (serve st r)) ∧
  (∀ rs, unique_signups (serve_all (seeded clock) rs)).
Proof.
  split_and!.
  - decide_by_running.
  - apply unique_signups_seeded.
  - apply unique_signups_serve.
  - intros rs. apply unique_signups_serve_all, unique_signups_seeded.
Qed.

Lemma uniqueness_invariant_witness :
  unique_signups (seeded Z.of_nat) ∧
  unique_signups
    (serve (seeded Z.of_nat) (Signup "Chess Club" "michael@mergington.edu" 7)).
Proof.
  split.
  - apply (proj1 (proj2 (uniqueness_invariant Z.of_nat))).
  - apply (proj1 (proj2 (proj2 (uniqueness_invariant Z.of_nat)))).
    apply (proj1 (proj2 (uniqueness_invariant Z.of_nat))).
Defined.

(** C5. Error atomicity: a signup or an unregister that raises leaves the
    store as it was, and raises one of the errors of its contract; after a
    signup that succeeded, the same signup raises 400 "Student is already
    signed up" and leaves the store, hence every count, as it was. *)
Theorem error_atomicity (st : Store) (a e : string) (now : Z) :
  (∀ err st', with_session (signup_for_activity a e now) st = (inl err, st') →
     st' = st ∧
     (err = not_found ∨ err = already_signed_up ∨ err = activity_full)) ∧
  (∀ err st', with_session (unregister_from_activity a e) st = (inl err, st') →
     st' = st ∧ (err = not_found ∨ err = not_signed_up)) ∧
  (∀ msg st' now',
     with_session (signup_for_activity a e now) st = (inr msg, st') →
     with_session (signup_for_activity a e now') st' =
     (inl {| status_code := 400; detail := "Student is already signed up" |},
      st') ∧
     length (enrolled (with_session (signup_for_activity a e now') st').2 a) =
     length (enrolled st' a)).
Proof.
  split_and!.
  - intros err st'. rewrite signup_runs.
    destruct (activity_named st a); [|naive_solver].
    destruct (head (signups st a e)); [naive_solver|].
    destruct (decide _); naive_solver.
  - intros err st'. rewrite unregister_runs.
    destruct (activity_named st a); [|naive_solver].
    destruct (head (signups st a e)); naive_solver.
  - intros msg st' now'. rewrite signup_runs.
    destruct (activity_named st a) as [act|] eqn:Hact; [|done].
    destruct (head (signups st a e)); [done|].
    destruct (decide _); [done|]. intros [= <- <-].
    assert (with_session (signup_for_activity a e now')
              (with_participants st
                 (participant_table st ++ [signup_row st a e now])) =
            (inl already_signed_up,
             with_participants st
               (participant_table st ++ [signup_row st a e now]))) as ->;
      [|done].
    rewrite signup_runs. unfold activity_named in *.
    cbn [activity_table with_participants]. rewrite Hact.
    unfold signups. cbn [participant_table with_participants].
    rewrite filter_app, filter_cons_True by done.
    by destruct (filter _ (participant_table st)).
Qed.

Lemma error_atomicity_witness :
  with_session (signup_for_activity "Chess Club" "zoe@mergington.edu" 99)
               (seeded Z.of_nat) =
  (inr {| message := "Signed up zoe@mergington.edu for Chess Club" |},
   serve (seeded Z.of_nat) (Signup "Chess Club" "zoe@mergington.edu" 99)) ∧
  with_session (signup_for_activity "Chess Club" "zoe@mergington.edu" 120)
    (serve (seeded Z.of_nat) (Signup "Chess Club" "zoe@mergington.edu" 99)) =
  (inl {| status_code := 400; detail := "Student is already signed up" |},
   serve (seeded Z.of_nat) (Signup "Chess Club" "zoe@mergington.edu" 99)).
Proof.
  assert (with_session
            (signup_for_activity "Chess Club" "zoe@mergington.edu" 99)
            (seeded Z.of_nat) =
          (inr {| message := "Signed up zoe@mergington.edu for Chess Club" |},
           serve (seeded Z.of_nat)
                 (Signup "Chess Club" "zoe@mergington.edu" 99))) as Hfirst
    by (vm_compute; reflexivity).
  split; [exact Hfirst|].
  exact (proj1 (proj2 (proj2
           (error_atomicity (seeded Z.of_nat) "Chess Club"
                            "zoe@mergington.edu" 99)) _ _ 120%Z Hfirst)).
Defined.

(** C6. Signup/listing round trip: after a signup that succeeded, the
    listing returns a mapping whose entry for the activity shows the email
    exactly once and carries the description, schedule and capacity of an
    Activity row of that name.  This holds in every store, so in particular
    in those with unique signups. *)
Theorem signup_then_listing (st st' : Store) (a e : string) (now : Z)
    (msg : MessageResponse) :
  with_session (signup_for_activity a e now) st = (inr msg, st') →
  ∃ m entry act,
    with_session get_activities st' = (inr m, st') ∧
    m !! a = Some entry ∧
    occurrences e (Entry.participants entry) = 1 ∧
    act ∈ activity_table st' ∧ name act = a ∧
    Entry.description entry = description act ∧
    Entry.schedule entry = schedule act ∧
    Entry.max_participants entry = max_participants act.
Proof.
  rewrite signup_runs.
  destruct (activity_named st a) as [act0|] eqn:Hact; [|done].
  destruct (head (signups st a e)) eqn:Hnone; [done|].
  destruct (decide _); [done|]. intros [= <- <-].
  set (st' := with_participants st _).
  destruct (listing_lookup_named st' a act0) as (act & Hin & Hname & Hentry);
    [done|].
  exists (listing st'), (entry_of st' act), act.
  split_and!; try done; [apply get_activities_runs|].
  cbn [entry_of Entry.participants]. rewrite Hname, occurrences_enrolled.
  unfold signups, st'. cbn [participant_table with_participants].
  rewrite filter_app, filter_cons_True, length_app by done.
  apply head_None in Hnone. unfold signups in Hnone. by rewrite Hnone.
Qed.

Lemma signup_then_listing_witness :
  with_session (signup_for_activity "Chess Club" "zoe@mergington.edu" 99)
               (seeded Z.of_nat) =
  (inr {| message := "Signed up zoe@mergington.edu for Chess Club" |},
   serve (seeded Z.of_nat) (Signup "Chess Club" "zoe@mergington.edu" 99)) ∧
  ∃ m entry act,
    with_session get_activities
      (serve (seeded Z.of_nat) (Signup "Chess Club" "zoe@mergington.edu" 99))
    = (inr m,
       serve (seeded Z.of_nat) (Signup "Chess Club" "zoe@mergington.edu" 99)) ∧
    m !! "Chess Club" = Some entry ∧
    occurrences "zoe@mergington.edu" (Entry.participants entry) = 1 ∧
    act ∈ activity_table
            (serve (seeded Z.of_nat)
                   (Signup "Chess Club" "zoe@mergington.edu" 99)) ∧
    name act = "Chess Club" ∧
    Entry.description entry = description act ∧
    Entry.schedule entry = schedule act ∧
    Entry.max_participants entry = max_participants act.
Proof.
  split; [vm_compute; reflexivity|].
  apply (signup_then_listing (seeded Z.of_nat) _ "Chess Club"
           "zoe@mergington.edu" 99
           {| message := "Signed up zoe@mergington.edu for Chess Club" |}).
  vm_compute. reflexivity.
Defined.

(** C7. Seeding is idempotent: on a store whose Activity table has a row it
    changes nothing; on a store whose Activity table is empty it inserts the
    catalog and the initial signups; so seeding a second time changes
    nothing. *)
Theorem seeding_idempotent (clock clock' : nat → Z) (st : Store) :
  (activity_table st ≠ [] → on_startup clock st = st) ∧
  (activity_table st = [] →
   on_startup clock st = foldl insert_row st (seed_entities clock) ∧
   activity_table (on_startup clock st) = initial_activities) ∧
  on_startup clock' (on_startup clock st) = on_startup clock st.
Proof.
  split_and!.
  - apply on_startup_populated.
  - apply on_startup_fresh.
  - destruct (activity_table st) as [|act acts] eqn:Htable.
    + apply on_startup_populated.
      destruct (on_startup_fresh clock st Htable) as [_ ->]. done.
    + rewrite (on_startup_populated clock st) by (by rewrite Htable).
      apply on_startup_populated. by rewrite Htable.
Qed.

Lemma seeding_idempotent_witness :
  activity_table (seeded Z.of_nat) ≠ [] ∧
  on_startup (λ i, Z.of_nat (i + 100)) (seeded Z.of_nat) = seeded Z.of_nat.
Proof.
  split; [vm_compute; discriminate|].
  apply (proj1 (seeding_idempotent (λ i, Z.of_nat (i + 100)) Z.of_nat
                  (seeded Z.of_nat))).
  vm_compute. discriminate.
Defined.

(** C8. Activity-table frame: a signup, an unregister, and any sequence of
    requests leave the Activity table as it was, whether they succeed or
    fail. *)
Theorem activity_table_frame (st : Store) :
  (∀ a e now,
     activity_table (with_session (signup_for_activity a e now) st).2 =
     activity_table st) ∧
  (∀ a e,
     activity_table (with_session (unregister_from_activity a e) st).2 =
     activity_table st) ∧
  (∀ rs, activity_table (serve_all st rs) = activity_table st).
Proof.
  split_and!.
  - intros a e now. apply (serve_activity_table st (Signup a e now)).
  - intros a e. apply (serve_activity_table st (Unregister a e)).
  - apply serve_all_activity_table.
Qed.

(** C9. Listing is read-only: it returns a mapping and leaves both tables
    as they were; on any session it leaves the store, the pending additions
    and the pending deletions untouched. *)
Theorem listing_read_only (st : Store) :
  (∃ m, with_session get_activities st = (inr m, st)) ∧
  (∀ s : Session, (get_activities s).2 = s).
Proof.
  split.
  - eexists. apply get_activities_runs.
  - intros s. by rewrite get_activities_session.
Qed.

(** C10. An activity whose [max_participants] is zero or negative accepts
    nobody: for an email not yet stored for it, signup raises 400 "Activity
    is full" and the store stays as it was. *)
Theorem zero_capacity_always_full (st : Store) (act : Activity) (e : string)
    (now : Z) :
  pk_activity st →
  act ∈ activity_table st →
  (max_participants act ≤ 0)%Z →
  ¬ registered st (name act) e →
  with_session (signup_for_activity (name act) e now) st =
  (inl {| status_code := 400; detail := "Activity is full" |}, st).
Proof.
  intros Hpk Hin Hmax Hnew. rewrite signup_runs.
  rewrite (activity_named_pk st act Hpk Hin).
  rewrite (not_registered_head _ _ _ Hnew).
  rewrite decide_True by lia. done.
Qed.

Lemma zero_capacity_always_full_witness :
  pk_activity no_seat_store ∧
  no_seat_club ∈ activity_table no_seat_store ∧
  (max_participants no_seat_club ≤ 0)%Z ∧
  ¬ registered no_seat_store (name no_seat_club) "zoe@mergington.edu" ∧
  with_session (signup_for_activity (name no_seat_club) "zoe@mergington.edu" 99)
               no_seat_store =
  (inl {| status_code := 400; detail := "Activity is full" |}, no_seat_store).
Proof.
  assert (pk_activity no_seat_store) as Hpk
    by (apply (bool_decide_unpack _); vm_compute; exact I).
  assert (no_seat_club ∈ activity_table no_seat_store) as Hin by left.
  assert (max_participants no_seat_club ≤ 0)%Z as Hmax by (simpl; lia).
  assert (¬ registered no_seat_store (name no_seat_club)
            "zoe@mergington.edu") as Hnew
    by (apply (bool_decide_unpack _); vm_compute; exact I).
  split_and!; [exact Hpk|exact Hin|exact Hmax|exact Hnew|].
  exact (zero_capacity_always_full no_seat_store no_seat_club
           "zoe@mergington.edu" 99 Hpk Hin Hmax Hnew).
Defined.

(** ** Further properties of the handlers *)

(** What a signup that returned has found and done. *)
Lemma signup_returned st st' a e now msg :
  with_session (signup_for_activity a e now) st = (inr msg, st') →
  ∃ act, activity_named st a = Some act ∧
         signups st a e = [] ∧
         (Z.of_nat (length (enrolled st a)) < max_participants act)%Z ∧
         msg = signup_message a e ∧
         st' = with_participants st
                 (participant_table st ++ [signup_row st a e now]).
Proof.
  rewrite signup_runs.
  destruct (activity_named st a) as [act|]; [|done].
  destruct (head (signups st a e)) eqn:Hnone; [done|].
  destruct (decide _); [done|]. intros [= <- <-].
  exists act. apply head_None in Hnone. split_and!; try done. lia.
Qed.

(** What an unregister that returned has found and done. *)
Lemma unregister_returned st st' a e msg :
  with_session (unregister_from_activity a e) st = (inr msg, st') →
  ∃ act p, activity_named st a = Some act ∧
           head (signups st a e) = Some p ∧
           msg = unregister_message a e ∧
           st' = with_participants st
                   (filter (λ q, id q ≠ id p) (participant_table st)).
Proof.
  rewrite unregister_runs.
  destruct (activity_named st a) as [act|]; [|done].
  destruct (head (signups st a e)) as [p|]; [|done].
  intros [= <- <-]. by exists act, p.
Qed.

Lemma filter_all {A} (P : A → Prop) `{!∀ x, Decision (P x)} (l : list A) :
  (∀ x, x ∈ l → P x) → filter P l = l.
Proof.
  induction l as [|x l IH]; intros Hall; [done|].
  rewrite filter_cons_True by (apply Hall; left).
  f_equal. apply IH. intros y Hy. apply Hall. by right.
Qed.

Lemma filter_comm {A} (P Q : A → Prop)
    `{!∀ x, Decision (P x), !∀ x, Decision (Q x)} (l : list A) :
  filter P (filter Q l) = filter Q (filter P l).
Proof.
  rewrite !list_filter_filter. apply list_filter_iff. tauto.
Qed.

(** X1. Signing up and then unregistering the same pair gives back the
    store the signup started from: the row that goes is the row that came. *)
Theorem signup_then_unregister (st st' : Store) (a e : string) (now : Z)
    (msg : MessageResponse) :
  with_session (signup_for_activity a e now) st = (inr msg, st') →
  with_session (unregister_from_activity a e) st' =
  (inr {| message := "Unregistered " +:+ e +:+ " from " +:+ a |}, st).
Proof.
  intros (act & Hact & Hnone & _ & _ & ->)%signup_returned.
  rewrite unregister_runs. unfold activity_named, signups in *.
  cbn [activity_table participant_table with_participants].
  rewrite Hact, filter_app, Hnone, filter_cons_True by done.
  cbn [app head]. rewrite filter_app, filter_cons_False by (by intros Hne).
  rewrite filter_nil, app_nil_r, filter_all.
  - by destruct st.
  - intros q Hq Heq. apply (next_id_fresh (participant_table st)).
    cbn in Heq. rewrite <- Heq. by apply list_elem_of_fmap_2.
Qed.

Lemma signup_then_unregister_witness :
  with_session (signup_for_activity "Chess Club" "zoe@mergington.edu" 99)
               (seeded Z.of_nat) =
  (inr {| message := "Signed up zoe@mergington.edu for Chess Club" |},
   serve (seeded Z.of_nat) (Signup "Chess Club" "zoe@mergington.edu" 99)) ∧
  with_session (unregister_from_activity "Chess Club" "zoe@mergington.edu")
    (serve (seeded Z.of_nat) (Signup "Chess Club" "zoe@mergington.edu" 99)) =
  (inr {| message := "Unregistered zoe@mergington.edu from Chess Club" |},
   seeded Z.of_nat).
Proof.
  assert (with_session
            (signup_for_activity "Chess Club" "zoe@mergington.edu" 99)
            (seeded Z.of_nat) =
          (inr {| message := "Signed up zoe@mergington.edu for Chess Club" |},
           serve (seeded Z.of_nat)
                 (Signup "Chess Club" "zoe@mergington.edu" 99))) as Hfirst
    by (vm_compute; reflexivity).
  split; [exact Hfirst|].
  exact (signup_then_unregister _ _ _ _ _ _ Hfirst).
Defined.

(** X2. Where a pair is stored at most once, an unregister that succeeded
    cannot be repeated: the second call raises 400 "Student is not signed up
    for this activity" and changes nothing. *)
Theorem unregister_twice (st st' : Store) (a e : string)
    (msg : MessageResponse) :
  length (signups st a e) ≤ 1 →
  with_session (unregister_from_activity a e) st = (inr msg, st') →
  with_session (unregister_from_activity a e) st' =
  (inl {| status_code := 400;
          detail := "Student is not signed up for this activity" |}, st').
Proof.
  intros Hone (act & p & Hact & Hp & _ & ->)%unregister_returned.
  rewrite unregister_runs. unfold activity_named, signups in *.
  cbn [activity_table participant_table with_participants].
  rewrite Hact, filter_comm.
  destruct (filter (λ p, activity_name p = a ∧ email p = e)
                   (participant_table st)) as [|p' [|p'' l]];
    [done| |cbn in Hone; lia].
  injection Hp as ->. by rewrite filter_cons_False by (by intros Hne).
Qed.

Lemma unregister_twice_witness :
  length (signups (seeded Z.of_nat) "Chess Club" "daniel@mergington.edu") ≤ 1 ∧
  with_session (unregister_from_activity "Chess Club" "daniel@mergington.edu")
    (serve (seeded Z.of_nat)
           (Unregister "Chess Club" "daniel@mergington.edu")) =
  (inl {| status_code := 400;
          detail := "Student is not signed up for this activity" |},
   serve (seeded Z.of_nat) (Unregister "Chess Club" "daniel@mergington.edu")).
Proof.
  assert (length (signups (seeded Z.of_nat) "Chess Club"
                          "daniel@mergington.edu") ≤ 1) as Hone
    by (vm_compute; lia).
  split; [exact Hone|].
  refine (unregister_twice (seeded Z.of_nat) _ "Chess Club"
            "daniel@mergington.edu"
            {| message :=
                 "Unregistered daniel@mergington.edu from Chess Club" |}
            Hone _).
  vm_compute. reflexivity.
Defined.

(** Under the primary key, a name selects exactly its row. *)
Lemma filter_name_pk st act :
  pk_activity st → act ∈ activity_table st →
  filter (λ b, name b = name act) (activity_table st) = [act].
Proof.
  unfold pk_activity. induction (activity_table st) as [|b l IH].
  - intros _ Hin. by apply elem_of_nil in Hin.
  - rewrite fmap_cons, NoDup_cons. intros [Hb Hnd] Hin.
    rewrite filter_cons. apply elem_of_cons in Hin as [->|Hin].
    + rewrite decide_True by done. f_equal.
      apply head_None, (head_filter_None (λ b0, name b0 = name b)).
      intros c Hc Heq. apply Hb. rewrite <- Heq. by apply list_elem_of_fmap_2.
    + rewrite decide_False; [by apply IH|].
      intros Heq. apply Hb. rewrite Heq. by apply list_elem_of_fmap_2.
Qed.

Lemma listing_lookup_pk st act :
  pk_activity st → act ∈ activity_table st →
  listing st !! name act = Some (entry_of st act).
Proof.
  intros Hpk Hin. by rewrite listing_lookup, filter_name_pk.
Qed.

Lemma enrolled_insert st a e now a' :
  enrolled (with_participants st
              (participant_table st ++ [signup_row st a e now])) a' =
  enrolled st a' ++ (if decide (a = a') then [signup_row st a e now] else []).
Proof.
  unfold enrolled. cbn [participant_table with_participants].
  by rewrite filter_app, filter_cons, filter_nil.
Qed.

(** Deleting the first row of a pair, in a table with distinct keys. *)
Lemma delete_first_signup st a e p :
  pk_participant st →
  head (signups st a e) = Some p →
  ∃ l1 l2, participant_table st = l1 ++ p :: l2 ∧
           activity_name p = a ∧ email p = e ∧
           filter (λ q, id q ≠ id p) (participant_table st) = l1 ++ l2.
Proof.
  intros Hpk (l1 & l2 & Hrows & [Ha He] & _)%head_filter_split.
  exists l1, l2. split_and!; try done.
  unfold pk_participant in Hpk. rewrite Hrows in *. by apply delete_by_key.
Qed.

(** X3. The listing has one entry for each activity name of the Activity
    table and no other entry: activities without participants are listed,
    participant rows of unknown activities are not. *)
Theorem listing_keys (st : Store) :
  ∃ m, with_session get_activities st = (inr m, st) ∧
       ∀ a, is_Some (m !! a) ↔ a ∈ name <$> activity_table st.
Proof.
  exists (listing st). split; [apply get_activities_runs|].
  intros a. rewrite listing_lookup, fmap_is_Some, list_elem_of_fmap. split.
  - intros [act Hlast]. exists act.
    by apply last_Some_elem_of, list_elem_of_filter in Hlast as [-> ?].
  - intros (act & -> & Hin).
    destruct (last (filter (λ b, name b = name act) (activity_table st)))
      eqn:Hl; [done|].
    apply last_None in Hl.
    by apply (filter_nil_not_elem_of _ _ act) in Hl.
Qed.

(** X4. With activity names as keys, the entry of each Activity row carries
    the row's description, schedule and capacity, and as participants the
    emails of the activity's Participant rows in table order. *)
Theorem listing_entry (st : Store) (act : Activity) :
  pk_activity st →
  act ∈ activity_table st →
  ∃ m, with_session get_activities st = (inr m, st) ∧
       m !! name act =
       Some {| Entry.description := description act;
               Entry.schedule := schedule act;
               Entry.max_participants := max_participants act;
               Entry.participants :=
                 email <$> filter (λ p, activity_name p = name act)
                                  (participant_table st) |}.
Proof.
  intros Hpk Hin. exists (listing st). split; [apply get_activities_runs|].
  by apply listing_lookup_pk.
Qed.

Lemma listing_entry_witness :
  pk_activity (seeded Z.of_nat) ∧
  chess_club ∈ activity_table (seeded Z.of_nat) ∧
  ∃ m, with_session get_activities (seeded Z.of_nat) =
       (inr m, seeded Z.of_nat) ∧
       m !! name chess_club =
       Some {| Entry.description := description chess_club;
               Entry.schedule := schedule chess_club;
               Entry.max_participants := max_participants chess_club;
               Entry.participants :=
                 email <$> filter (λ p, activity_name p = name chess_club)
                                  (participant_table (seeded Z.of_nat)) |}.
Proof.
  assert (pk_activity (seeded Z.of_nat)) as Hpk
    by (apply (bool_decide_unpack _); vm_compute; exact I).
  assert (chess_club ∈ activity_table (seeded Z.of_nat)) as Hin by left.
  split_and!; [exact Hpk|exact Hin|].
  exact (listing_entry (seeded Z.of_nat) chess_club Hpk Hin).
Defined.

Lemma enrolled_delete st a e p a' :
  pk_participant st →
  head (signups st a e) = Some p →
  length (enrolled (with_participants st
                      (filter (λ q, id q ≠ id p) (participant_table st))) a')
  + (if decide (a = a') then 1 else 0) = length (enrolled st a').
Proof.
  intros Hpk Hp.
  destruct (delete_first_signup st a e p Hpk Hp)
    as (l1 & l2 & Hrows & Ha & _ & Hdel).
  unfold enrolled. cbn [participant_table with_participants].
  rewrite Hdel, Hrows, !filter_app, filter_cons, Ha.
  destruct (decide (a = a')); rewrite !length_app; cbn; lia.
Qed.

Lemma signup_enrolled_other st st' a e now msg a' :
  with_session (signup_for_activity a e now) st = (inr msg, st') →
  a' ≠ a → enrolled st' a' = enrolled st a'.
Proof.
  intros (act & _ & _ & _ & _ & ->)%signup_returned Hne.
  rewrite enrolled_insert, decide_False by done. apply app_nil_r.
Qed.

Lemma unregister_enrolled_other st st' a e msg a' :
  pk_participant st →
  with_session (unregister_from_activity a e) st = (inr msg, st') →
  a' ≠ a → enrolled st' a' = enrolled st a'.
Proof.
  intros Hpk (act & p & _ & Hp & _ & ->)%unregister_returned Hne.
  destruct (delete_first_signup st a e p Hpk Hp)
    as (l1 & l2 & Hrows & Ha & _ & Hdel).
  unfold enrolled. cbn [participant_table with_participants].
  rewrite Hdel, Hrows, !filter_app, filter_cons_False; [done|].
  by rewrite Ha.
Qed.

(** A request that raises leaves the store as it was. *)
Lemma serve_raised_signup st a e now err st' :
  with_session (signup_for_activity a e now) st = (inl err, st') → st' = st.
Proof.
  rewrite signup_runs.
  destruct (activity_named st a); [|by intros [= _ <-]].
  destruct (head (signups st a e)); [by intros [= _ <-]|].
  destruct (decide _); [by intros [= _ <-]|done].
Qed.

Lemma serve_raised_unregister st a e err st' :
  with_session (unregister_from_activity a e) st = (inl err, st') → st' = st.
Proof.
  rewrite unregister_runs.
  destruct (activity_named st a); [|by intros [= _ <-]].
  destruct (head (signups st a e)); [done|by intros [= _ <-]].
Qed.

(** X5. A signup that succeeded raises the number of rows of its activity
    by exactly one, to at most the capacity of the Activity row the key
    finds, and leaves the rows of every other activity as they were. *)
Theorem signup_counts (st st' : Store) (a e : string) (now : Z)
    (msg : MessageResponse) :
  with_session (signup_for_activity a e now) st = (inr msg, st') →
  ∃ act, activity_named st' a = Some act ∧
         length (enrolled st' a) = S (length (enrolled st a)) ∧
         (Z.of_nat (length (enrolled st' a)) ≤ max_participants act)%Z ∧
         ∀ a', a' ≠ a → enrolled st' a' = enrolled st a'.
Proof.
  intros Hrun.
  pose proof Hrun as (act & Hact & _ & Hroom & _ & ->)%signup_returned.
  exists act. split_and!.
  - done.
  - rewrite enrolled_insert, decide_True, length_app by done. cbn. lia.
  - rewrite enrolled_insert, decide_True, length_app by done. cbn. lia.
  - intros a' Hne. by eapply signup_enrolled_other.
Qed.

Lemma signup_counts_witness :
  with_session (signup_for_activity "Chess Club" "zoe@mergington.edu" 99)
               (seeded Z.of_nat) =
  (inr {| message := "Signed up zoe@mergington.edu for Chess Club" |},
   serve (seeded Z.of_nat) (Signup "Chess Club" "zoe@mergington.edu" 99)) ∧
  ∃ act,
    activity_named
      (serve (seeded Z.of_nat) (Signup "Chess Club" "zoe@mergington.edu" 99))
      "Chess Club" = Some act ∧
    length (enrolled
              (serve (seeded Z.of_nat)
                     (Signup "Chess Club" "zoe@mergington.edu" 99))
              "Chess Club") =
    S (length (enrolled (seeded Z.of_nat) "Chess Club")) ∧
    (Z.of_nat
       (length (enrolled
                  (serve (seeded Z.of_nat)
                         (Signup "Chess Club" "zoe@mergington.edu" 99))
                  "Chess Club")) ≤ max_participants act)%Z ∧
    ∀ a', a' ≠ "Chess Club" →
          enrolled (serve (seeded Z.of_nat)
                          (Signup "Chess Club" "zoe@mergington.edu" 99)) a' =
          enrolled (seeded Z.of_nat) a'.
Proof.
  assert (with_session
            (signup_for_activity "Chess Club" "zoe@mergington.edu" 99)
            (seeded Z.of_nat) =
          (inr {| message := "Signed up zoe@mergington.edu for Chess Club" |},
           serve (seeded Z.of_nat)
                 (Signup "Chess Club" "zoe@mergington.edu" 99))) as Hfirst
    by (vm_compute; reflexivity).
  split; [exact Hfirst|].
  exact (signup_counts _ _ _ _ _ _ Hfirst).
Defined.

(** X6. With distinct row keys, an unregister that succeeded lowers the
    number of rows of its activity by exactly one and leaves the rows of
    every other activity as they were. *)
Theorem unregister_counts (st st' : Store) (a e : string)
    (msg : MessageResponse) :
  pk_participant st →
  with_session (unregister_from_activity a e) st = (inr msg, st') →
  S (length (enrolled st' a)) = length (enrolled st a) ∧
  ∀ a', a' ≠ a → enrolled st' a' = enrolled st a'.
Proof.
  intros Hpk Hrun. split.
  - pose proof Hrun as (act & p & _ & Hp & _ & ->)%unregister_returned.
    pose proof (enrolled_delete st a e p a Hpk Hp) as Hlen.
    rewrite decide_True in Hlen by done. lia.
  - intros a' Hne. by eapply unregister_enrolled_other.
Qed.

Lemma unregister_counts_witness :
  pk_participant (seeded Z.of_nat) ∧
  with_session (unregister_from_activity "Chess Club" "daniel@mergington.edu")
               (seeded Z.of_nat) =
  (inr {| message := "Unregistered daniel@mergington.edu from Chess Club" |},
   serve (seeded Z.of_nat)
         (Unregister "Chess Club" "daniel@mergington.edu")) ∧
  S (length (enrolled
               (serve (seeded Z.of_nat)
                      (Unregister "Chess Club" "daniel@mergington.edu"))
               "Chess Club")) =
  length (enrolled (seeded Z.of_nat) "Chess Club").
Proof.
  assert (pk_participant (seeded Z.of_nat)) as Hpk
    by (apply (bool_decide_unpack _); vm_compute; exact I).
  assert (with_session
            (unregister_from_activity "Chess Club" "daniel@mergington.edu")
            (seeded Z.of_nat) =
          (inr {| message :=
                    "Unregistered daniel@mergington.edu from Chess Club" |},
           serve (seeded Z.of_nat)
                 (Unregister "Chess Club" "daniel@mergington.edu")))
    as Hrun by (vm_compute; reflexivity).
  split_and!; [exact Hpk|exact Hrun|].
  exact (proj1 (unregister_counts _ _ _ _ _ Hpk Hrun)).
Defined.

(** An entry depends on the Activity table and on the rows of its name. *)
Lemma listing_lookup_frame st st' a :
  activity_table st' = activity_table st →
  enrolled st' a = enrolled st a →
  listing st' !! a = listing st !! a.
Proof.
  intros Hacts Hrows. rewrite !listing_lookup, Hacts.
  destruct (last _) as [act|] eqn:Hlast; [|done].
  apply last_Some_elem_of, list_elem_of_filter in Hlast as [Hname _].
  cbn. unfold entry_of. by rewrite Hname, Hrows.
Qed.

(** X7. With distinct row keys, a request leaves the listing entry of every
    activity other than the one it names as it was. *)
Theorem listing_other_activities (st : Store) (r : Request) (a' : string)
    (m m' : gmap string Entry.t) :
  pk_participant st →
  request_activity r ≠ Some a' →
  with_session get_activities st = (inr m, st) →
  with_session get_activities (serve st r) = (inr m', serve st r) →
  m' !! a' = m !! a'.
Proof.
  intros Hpk Hother. rewrite !get_activities_runs. intros [= <-] [= <-].
  apply listing_lookup_frame; [apply serve_activity_table|].
  destruct r as [|a e now|a e]; cbn [serve request_activity] in *.
  - by rewrite get_activities_runs.
  - destruct (with_session (signup_for_activity a e now) st)
      as [[err|msg] st'] eqn:Hrun; cbn [snd].
    + by apply serve_raised_signup in Hrun as ->.
    + eapply signup_enrolled_other; [done|congruence].
  - destruct (with_session (unregister_from_activity a e) st)
      as [[err|msg] st'] eqn:Hrun; cbn [snd].
    + by apply serve_raised_unregister in Hrun as ->.
    + eapply unregister_enrolled_other; [done|done|congruence].
Qed.

Lemma listing_other_activities_witness :
  pk_participant (seeded Z.of_nat) ∧
  request_activity (Unregister "Chess Club" "daniel@mergington.edu")
  ≠ Some "Math Club" ∧
  listing (serve (seeded Z.of_nat)
                 (Unregister "Chess Club" "daniel@mergington.edu"))
  !! "Math Club" = listing (seeded Z.of_nat) !! "Math Club".
Proof.
  assert (pk_participant (seeded Z.of_nat)) as Hpk
    by (apply (bool_decide_unpack _); vm_compute; exact I).
  assert (request_activity (Unregister "Chess Club" "daniel@mergington.edu")
          ≠ Some "Math Club") as Hother by discriminate.
  split_and!; [exact Hpk|exact Hother|].
  exact (listing_other_activities (seeded Z.of_nat) _ "Math Club" _ _
           Hpk Hother (get_activities_runs _) (get_activities_runs _)).
Defined.



Lemma fk_participant_serve st r :
  fk_participant st → fk_participant (serve st r).
Proof.
  intros Hfk.
  destruct (serve_cases st r) as [r|a e now act Hact _ _|a e p _]; [done| |];
    intros q; cbn [participant_table activity_table with_participants].
  - intros [Hq| ->%list_elem_of_singleton]%elem_of_app; [by apply Hfk|].
    exists act. by apply activity_named_elem in Hact.
  - intros [_ Hq]%list_elem_of_filter. by apply Hfk.
Qed.

(** X9. The foreign key is kept: every Participant row of the seeded store
    names an Activity row, and a request served on a store where this holds
    leaves a store where it holds -- signup inserts only for an activity it
    has found, and no request removes an Activity row. *)
Theorem foreign_key_invariant (clock : nat → Z) :
  fk_participant (seeded clock) ∧
  (∀ st r, fk_participant st → fk_participant (serve st r)) ∧
  (∀ rs, fk_participant (serve_all (seeded clock) rs)).
Proof.
  assert (fk_participant (seeded clock)) as Hseed.
  { assert (Forall (λ p, Exists (λ act, name act = activity_name p)
                                (activity_table (seeded clock)))
                   (participant_table (seeded clock))) as Hall.
    { rewrite seeded_activities, seeded_participants. decide_by_running. }
    intros p Hp. eapply Forall_forall in Hall; [|exact Hp].
    apply Exists_exists in Hall as (act & Hin & Hname). by exists act. }
  split_and!; [done|apply fk_participant_serve|].
  intros rs. unfold serve_all. generalize (seeded clock) Hseed.
  induction rs as [|r rs IH]; intros st Hst; [done|].
  apply IH, fk_participant_serve, Hst.
Qed.

Lemma foreign_key_invariant_witness :
  fk_participant (seeded Z.of_nat) ∧
  fk_participant
    (serve (seeded Z.of_nat) (Signup "Math Club" "zoe@mergington.edu" 99)).
Proof.
  split.
  - exact (proj1 (foreign_key_invariant Z.of_nat)).
  - exact (proj1 (proj2 (foreign_key_invariant Z.of_nat)) _ _
             (proj1 (foreign_key_invariant Z.of_nat))).
Defined.




(** X11. Unregistering frees a seat: when the activity held no more rows
    than its capacity, after an unregister that succeeded a signup of any
    email not stored for the activity succeeds. *)
Theorem unregister_frees_seat (st st' : Store) (a e e' : string) (now : Z)
    (act : Activity) (msg : MessageResponse) :
  activity_named st a = Some act →
  (Z.of_nat (length (enrolled st a)) ≤ max_participants act)%Z →
  with_session (unregister_from_activity a e) st = (inr msg, st') →
  ¬ registered st' a e' →
  ∃ st'',
    with_session (signup_for_activity a e' now) st' =
    (inr {| message := "Signed up " +:+ e' +:+ " for " +:+ a |}, st'').
Proof.
  intros Hact Hcap (act' & p & _ & Hp & _ & ->)%unregister_returned Hnew.
  rewrite signup_runs. unfold activity_named in *.
  cbn [activity_table with_participants]. rewrite Hact.
  rewrite (not_registered_head _ _ _ Hnew).
  eexists. rewrite decide_False; [done|].
  apply (head_filter_Some (λ q, activity_name q = a ∧ email q = e))
    in Hp as [Hin [Ha _]].
  unfold enrolled in *. cbn [participant_table with_participants].
  rewrite filter_comm.
  pose proof (length_filter_lt (λ q, id q ≠ id p)
                (filter (λ q, activity_name q = a) (participant_table st)) p)
    as Hlt.
  assert (length (filter (λ q, id q ≠ id p)
                    (filter (λ q, activity_name q = a)
                            (participant_table st)))
          < length (filter (λ q, activity_name q = a)
                           (participant_table st))) as Hless.
  { apply Hlt; [by apply list_elem_of_filter|by intros Hne]. }
  lia.
Qed.

Lemma unregister_frees_seat_witness :
  activity_named (seeded Z.of_nat) "Chess Club" = Some chess_club ∧
  (Z.of_nat (length (enrolled (seeded Z.of_nat) "Chess Club"))
   ≤ max_participants chess_club)%Z ∧
  ¬ registered (serve (seeded Z.of_nat)
                      (Unregister "Chess Club" "daniel@mergington.edu"))
               "Chess Club" "zoe@mergington.edu" ∧
  ∃ st'',
    with_session (signup_for_activity "Chess Club" "zoe@mergington.edu" 99)
      (serve (seeded Z.of_nat)
             (Unregister "Chess Club" "daniel@mergington.edu")) =
    (inr {| message := "Signed up zoe@mergington.edu for Chess Club" |},
     st'').
Proof.
  assert (activity_named (seeded Z.of_nat) "Chess Club" = Some chess_club)
    as Hact by reflexivity.
  assert (Z.of_nat (length (enrolled (seeded Z.of_nat) "Chess Club"))
          ≤ max_participants chess_club)%Z as Hcap
    by (vm_compute; discriminate).
  assert (¬ registered (serve (seeded Z.of_nat)
                              (Unregister "Chess Club"
                                          "daniel@mergington.edu"))
                       "Chess Club" "zoe@mergington.edu") as Hnew
    by (apply (bool_decide_unpack _); vm_compute; exact I).
  assert (with_session
            (unregister_from_activity "Chess Club" "daniel@mergington.edu")
            (seeded Z.of_nat) =
          (inr {| message :=
                    "Unregistered daniel@mergington.edu from Chess Club" |},
           serve (seeded Z.of_nat)
                 (Unregister "Chess Club" "daniel@mergington.edu")))
    as Hrun by (vm_compute; reflexivity).
  split_and!; [exact Hact|exact Hcap|exact Hnew|].
  exact (unregister_frees_seat _ _ _ _ "zoe@mergington.edu" 99 _ _
           Hact Hcap Hrun Hnew).
Defined.
